(** * Rotary position embedding: the Triton kernel, its host wrapper and
      the frequency-table builders of [kernels/rope.py]

    The development has two parts.  The first embeds the program: the
    device memory the kernel works on, the masked vector loads and stores
    of Triton, the kernel [rope_kernel_fw], its launch over a grid, the
    host function [rope] and the three table builders.  The second part
    states and proves the properties.

    Modelling decisions, fixed here once:
    - Tensor elements are values of an abstract scalar type [F] with the
      operations the program applies to them ([Scalar]).  No algebraic law
      is assumed of them, so every kernel theorem holds for IEEE
      arithmetic of any width as well as for exact arithmetic.
    - Device memory is a list of buffers; a pointer is a buffer index and
      an element offset.  A cell is [None] until it is written
      ([torch.empty_like] leaves memory uninitialised).  An access outside
      a buffer, or a read of an uninitialised cell, is a [MemoryFault]: the
      model stops where the device would go on with whatever lies at the
      address.  A run without fault is a run all of whose accesses are to
      cells that exist; nothing is concluded about the device from a
      fault other than that such an access is made.
    - The kernel is compiled for its arguments when it is launched.  The
      compiler refuses [tl.arange(0, BLOCK_SIZE)] when the range is empty
      or its length is not a power of two ([CompilationError]); its limits
      on the size of a range are not modelled.
    - A vector of lanes is a list, lane [i] at position [i].  The program
      instances of a launch run one after the other; that their order does
      not matter is a theorem.
    - The kernel is modelled for arbitrary strides.  The host function is
      modelled on the tensors that are contiguous or the transpose of axes
      0 and 1 of a contiguous tensor, for which [torch.empty_like] keeps
      the strides; the table of angles is a contiguous matrix.
    - [ctx] is a finite map from attribute names to values.
    - The table builders are modelled in exact real arithmetic: [**] is
      [Rpower] (meaningful for a positive base), [torch.cos] and
      [torch.sin] are the real cosine and sine; the [device] arguments play
      no role and are left out. *)

From Stdlib Require Import ZArith Reals Lia Lra.
From stdpp Require Import base list strings gmap.

(** ** Errors *)

Inductive error :=
  | ValueError (msg : string)
  | AssertionError (msg : string)
  | CompilationError (msg : string)
  | MemoryFault.

Inductive result (A : Type) :=
  | Ok (a : A)
  | Raise (e : error).
Arguments Ok {A} a.
Arguments Raise {A} e.

#[export] Instance result_ret : MRet result := fun A a => Ok a.
#[export] Instance result_bind : MBind result := fun A B f r =>
  match r with
  | Ok a => f a
  | Raise e => Raise e
  end.

Fixpoint foldlM {A B : Type} (f : B -> A -> result B) (l : list A) (b : B)
  : result B :=
  match l with
  | [] => Ok b
  | x :: l' => b' ← f b x; foldlM f l' b'
  end.

(** ** Scalars *)

Class Scalar (F : Type) := {
  fzero : F;
  fadd : F -> F -> F;
  fsub : F -> F -> F;
  fmul : F -> F -> F;
  fcos : F -> F;
  fsin : F -> F;
  to_dtype : F -> F;
}.

(** ** [triton.next_power_of_2] on Python integers *)

Definition next_power_of_2 (n : Z) : Z :=
  let n := (n - 1)%Z in
  let n := Z.lor n (Z.shiftr n 1) in
  let n := Z.lor n (Z.shiftr n 2) in
  let n := Z.lor n (Z.shiftr n 4) in
  let n := Z.lor n (Z.shiftr n 8) in
  let n := Z.lor n (Z.shiftr n 16) in
  let n := Z.lor n (Z.shiftr n 32) in
  (n + 1)%Z.


(** ** Device memory *)

Abbreviation buffer F := (list (option F)) (only parsing).
Abbreviation heap F := (list (list (option F))) (only parsing).

Section Device.
Context {F : Type} `{!Scalar F}.


Definition peek (m : heap F) (p o : nat) : option F :=
  buf ← m !! p; c ← buf !! o; c.

Definition poke (m : heap F) (p o : nat) (v : F) : result (heap F) :=
  match m !! p with
  | Some buf =>
      if decide (o < length buf)
      then Ok (<[p := <[o := Some v]> buf]> m)
      else Raise MemoryFault
  | None => Raise MemoryFault
  end.

(** ** [tl.load] and [tl.store] with a mask *)

Definition load_lane (m : heap F) (p : nat) (other : F) (o : nat) (k : bool)
  : result F :=
  if k then
    match peek m p o with
    | Some v => Ok v
    | None => Raise MemoryFault
    end
  else Ok other.

Fixpoint tl_load (m : heap F) (p : nat) (offs : list nat) (mask : list bool)
    (other : F) : result (list F) :=
  match offs, mask with
  | o :: offs', k :: mask' =>
      v ← load_lane m p other o k;
      vs ← tl_load m p offs' mask' other;
      Ok (v :: vs)
  | _, _ => Ok []
  end.

Definition store_lane (m : heap F) (p : nat) (o : nat) (v : F) (k : bool)
  : result (heap F) :=
  if k then poke m p o v else Ok m.

Fixpoint tl_store (m : heap F) (p : nat) (offs : list nat) (vals : list F)
    (mask : list bool) : result (heap F) :=
  match offs, vals, mask with
  | o :: offs', v :: vals', k :: mask' =>
      m' ← store_lane m p o v k;
      tl_store m' p offs' vals' mask'
  | _, _, _ => Ok m
  end.

(** ** [tl.arange]

    The range is a compile-time constant; the compiler refuses an empty
    range and a range whose length is not a power of two. *)

Definition tl_arange (start stop : nat) : result (list nat) :=
  if stop <=? start
  then Raise (CompilationError
         "arange's end argument must be greater than the start argument")
  else if negb (Nat.land (stop - start) (stop - start - 1) =? 0)
  then Raise (CompilationError "arange's range must be a power of 2")
  else Ok (seq start (stop - start)).


(** ** The kernel *)

Record kargs := {
  input_ptr : nat;
  in_seq_len_stride : nat;
  in_batch_stride : nat;
  output_ptr : nat;
  cos_ptr : nat;
  sin_ptr : nat;
  cos_stride : nat;
  sin_stride : nat;
  seq_len : nat;
  head_dim : nat;
  BLOCK_SIZE : nat;
  BATCH_NUM : nat;
}.

(** The lanes of a block: the value of [tl.arange(0, BLOCK_SIZE)] when
    the compiler accepts it ([rope_kernel_body] evaluates the range). *)
Definition head_dim_offset (a : kargs) : list nat := seq 0 (BLOCK_SIZE a).
Definition head_dim_mid (a : kargs) : nat := head_dim a / 2.
Definition mask (a : kargs) : list bool :=
  (fun o => bool_decide (o < head_dim_mid a)) <$> head_dim_offset a.

Definition cos_offset (a : kargs) (pid_seq : nat) : list nat :=
  (fun o => (pid_seq mod seq_len a) * cos_stride a + o) <$> head_dim_offset a.
Definition sin_offset (a : kargs) (pid_seq : nat) : list nat :=
  (fun o => (pid_seq mod seq_len a) * sin_stride a + o) <$> head_dim_offset a.

Definition x1_offset (a : kargs) (pid_seq pid_head batch_idx : nat)
  : list nat :=
  (fun o => pid_seq * in_seq_len_stride a + batch_idx * in_batch_stride a
            + pid_head * head_dim a + o) <$> head_dim_offset a.
Definition x2_offset (a : kargs) (pid_seq pid_head batch_idx : nat)
  : list nat :=
  (fun o => pid_seq * in_seq_len_stride a + batch_idx * in_batch_stride a
            + pid_head * head_dim a + head_dim_mid a + o)
    <$> head_dim_offset a.

(** One iteration of the loop over [batch_idx]. *)
Definition rope_kernel_batch (a : kargs) (cos sin : list F)
    (pid_seq pid_head : nat) (m : heap F) (batch_idx : nat) : result (heap F) :=
  x1 ← tl_load m (input_ptr a) (x1_offset a pid_seq pid_head batch_idx)
               (mask a) fzero;
  x2 ← tl_load m (input_ptr a) (x2_offset a pid_seq pid_head batch_idx)
               (mask a) fzero;
  let y1 := zip_with fsub (zip_with fmul x1 cos) (zip_with fmul x2 sin) in
  let y2 := zip_with fadd (zip_with fmul x1 sin) (zip_with fmul x2 cos) in
  m ← tl_store m (output_ptr a) (x1_offset a pid_seq pid_head batch_idx)
               y1 (mask a);
  tl_store m (output_ptr a) (x2_offset a pid_seq pid_head batch_idx)
           y2 (mask a).

(** The body of the kernel for the program ids [(pid_seq, pid_head)], with
    the batch indices visited in the order [batches]. *)
Definition rope_kernel_body (a : kargs) (batches : list nat)
    (pid_seq pid_head : nat) (m : heap F) : result (heap F) :=
  _ ← tl_arange 0 (BLOCK_SIZE a);
  cos ← tl_load m (cos_ptr a) (cos_offset a pid_seq) (mask a) fzero;
  sin ← tl_load m (sin_ptr a) (sin_offset a pid_seq) (mask a) fzero;
  foldlM (rope_kernel_batch a cos sin pid_seq pid_head) batches m.

(** [tl.static_range(0, BATCH_NUM)] visits the batches in increasing
    order. *)
Definition rope_kernel_fw (a : kargs) (pid_seq pid_head : nat) (m : heap F)
  : result (heap F) :=
  rope_kernel_body a (seq 0 (BATCH_NUM a)) pid_seq pid_head m.

(** ** Launching the kernel over a grid *)

(** The kernel is compiled for its constant arguments before any program
    instance runs, also when the grid is empty; compilation evaluates the
    range of the body. *)
Definition compile (a : kargs) : result unit :=
  _ ← tl_arange 0 (BLOCK_SIZE a); Ok tt.

Definition grid_units (grid : nat * nat) : list (nat * nat) :=
  s ← seq 0 grid.1; h ← seq 0 grid.2; [(s, h)].

(** [rope_kernel_fw[grid](...)], one program instance after the other. *)
Definition launch (a : kargs) (grid : nat * nat) (m : heap F)
  : result (heap F) :=
  _ ← compile a;
  foldlM (fun m u => rope_kernel_fw a u.1 u.2 m) (grid_units grid) m.




(** ** Host side: tensors, tables and the context object *)

(** A 4-dimensional tensor as a view of a buffer.  The views that occur
    are the contiguous one and its transpose of axes 0 and 1; [shape] is
    the logical shape, [transposed] tells which of the two layouts the
    buffer has.  Axes 2 and 3 are contiguous in both. *)
Record Tensor := {
  data_ptr : nat;
  shape : nat * nat * nat * nat;
  transposed : bool;
}.

Definition stride (t : Tensor) (axis : nat) : nat :=
  let '(d0, d1, d2, d3) := shape t in
  match axis with
  | 0 => if transposed t then d2 * d3 else d1 * d2 * d3
  | 1 => if transposed t then d0 * d2 * d3 else d2 * d3
  | 2 => d3
  | _ => 1
  end.

Definition numel (t : Tensor) : nat :=
  let '(d0, d1, d2, d3) := shape t in d0 * d1 * d2 * d3.

(** [t.transpose(0, 1)]: a view of the same buffer. *)
Definition transpose01 (t : Tensor) : Tensor :=
  let '(d0, d1, d2, d3) := shape t in
  {| data_ptr := data_ptr t;
     shape := (d1, d0, d2, d3);
     transposed := negb (transposed t) |}.

(** The element of [t] at index [(i0, i1, i2, i3)]. *)
Definition tensor_get (m : heap F) (t : Tensor) (i0 i1 i2 i3 : nat)
  : option F :=
  peek m (data_ptr t)
       (i0 * stride t 0 + i1 * stride t 1 + i2 * stride t 2 + i3).

(** [torch.empty_like(t)]: a new uninitialised buffer with the layout of
    [t] (both layouts are dense, so the strides are preserved). *)
Definition empty_like (t : Tensor) (m : heap F) : Tensor * heap F :=
  ({| data_ptr := length m; shape := shape t; transposed := transposed t |},
   m ++ [replicate (numel t) None]).

(** A contiguous 2-dimensional table, [rows] by [cols]. *)
Record Table := {
  tab_ptr : nat;
  rows : nat;
  cols : nat;
}.

(** [x[:n]] *)
Definition slice_rows (x : Table) (n : nat) : Table :=
  {| tab_ptr := tab_ptr x; rows := rows x `min` n; cols := cols x |}.

(** An elementwise operation that returns a new contiguous table. *)
Definition torch_unary (f : F -> F) (x : Table) (m : heap F)
  : result (Table * heap F) :=
  match m !! tab_ptr x with
  | Some buf =>
      if decide (rows x * cols x ≤ length buf)
      then Ok ({| tab_ptr := length m; rows := rows x; cols := cols x |},
               m ++ [option_map f <$> take (rows x * cols x) buf])
      else Raise MemoryFault
  | None => Raise MemoryFault
  end.

(** The attributes stored on [ctx]. *)
Inductive value :=
  | VTable (x : Table)
  | VInt (n : nat)
  | VStr (s : string).

Definition check_tensor_format (t : Tensor) (tensor_format : string)
  : result Tensor :=
  if String.eqb tensor_format "bshd" then Ok (transpose01 t)
  else if negb (String.eqb tensor_format "sbhd")
  then Raise (ValueError
                ("Unsupported tensor_format: " +:+ tensor_format +:+ "."))
  else Ok t.

Definition rope (ctx : gmap string value) (t : Tensor) (freqs : Table)
    (tensor_format : string) (cu_seqlens : option Table) (m : heap F)
  : result (Tensor * gmap string value * heap F) :=
  t ← check_tensor_format t tensor_format;
  let '(seq_len, batch_num, head_num, head_dim) := shape t in
  let '(output, m) := empty_like t m in
  let BLOCK_SIZE :=
    Z.to_nat (next_power_of_2 (Z.of_nat (head_dim / 2))) in
  let grid := (seq_len, head_num) in
  let freqs := slice_rows freqs seq_len in
  r ← torch_unary (fun x => to_dtype (fcos x)) freqs m;
  let '(cos, m) := r in
  r ← torch_unary (fun x => to_dtype (fsin x)) freqs m;
  let '(sin, m) := r in
  m ← launch {| input_ptr := data_ptr t;
                in_seq_len_stride := stride t 0;
                in_batch_stride := stride t 1;
                output_ptr := data_ptr output;
                cos_ptr := tab_ptr cos;
                sin_ptr := tab_ptr sin;
                cos_stride := cols cos;
                sin_stride := cols sin;
                seq_len := seq_len;
                head_dim := head_dim;
                BLOCK_SIZE := BLOCK_SIZE;
                BATCH_NUM := batch_num |} grid m;
  let ctx := <["cos" := VTable cos]> ctx in
  let ctx := <["sin" := VTable sin]> ctx in
  let ctx := <["BLOCK_SIZE" := VInt BLOCK_SIZE]> ctx in
  let ctx := <["tensor_format" := VStr tensor_format]> ctx in
  if String.eqb tensor_format "bshd"
  then Ok (transpose01 output, ctx, m)
  else Ok (output, ctx, m).

End Device.
Arguments kargs : clear implicits.

(** ** The frequency-table builders, in exact real arithmetic *)

Module Tables.
Local Open Scope R_scope.

(** [torch.arange(start, stop, step)] on natural numbers. *)
Definition arange (start stop step : nat) : list nat :=
  (fun j => (start + j * step)%nat)
    <$> seq 0 ((stop - start + step - 1) / step)%nat.

(** [torch.outer] *)
Definition outer (u v : list R) : list (list R) :=
  (fun x => (fun y => x * y) <$> v) <$> u.

(** [torch.polar(abs, angle)], a complex number as (real, imaginary). *)
Definition polar (abs angle : R) : (R * R)%type :=
  (abs * Rtrigo_def.cos angle, abs * Rtrigo_def.sin angle).

(** [torch.polar(torch.ones_like(x), x)] *)
Definition polar_ones (x : list (list R)) : list (list (R * R)%type) :=
  (fun row : list R => polar 1 <$> row) <$> x.

Definition precompute_theta_pos_frequencies (head_dim seq_len : nat)
    (theta : R) : result (list (list (R * R)%type)) :=
  if negb (head_dim mod 2 =? 0)%nat
  then Raise (AssertionError "Dimension must be divisible by 2")
  else
    let theta_numerator := INR <$> arange 0 head_dim 2 in
    let theta :=
      (fun n => 1 / Rpower theta (n / INR head_dim)) <$> theta_numerator in
    let m := INR <$> arange 0 seq_len 1 in
    let freqs := outer m theta in
    let freqs_complex := polar_ones freqs in
    Ok freqs_complex.

(** [compute_theta] returns the lines it prints and its value. *)
Definition compute_theta (dim : nat) (base : R)
  : list string * result (list R) :=
  let out :=
    if negb (dim mod 2 =? 0)%nat then ["嵌入维度 dim 必须为偶数"] else [] in
  let i := INR <$> arange 1 (dim / 2 + 1) 1 in
  let theta_i := (fun i => Rpower base (-2 * (i - 1) / INR dim)) <$> i in
  (out, Ok theta_i).

Definition precompute_freqs_cis (dim seq_len : nat) (base : R)
  : list string * result (list (list (R * R)%type)) :=
  let '(out, r) := compute_theta dim base in
  (out,
   theta ← r;
   let m := INR <$> arange 0 seq_len 1 in
   let m_theta := outer m theta in
   let freqs_cis := polar_ones m_theta in
   Ok freqs_cis).

End Tables.

(** ** A concrete scalar type for running the program

    Integers, with angles counted in quarter turns: the cosine and sine of
    a multiple of a right angle are integers, so the rotations below are
    computed exactly. *)

Definition quarter_cos (q : Z) : Z :=
  match (q mod 4)%Z with
  | 0%Z => 1%Z
  | 2%Z => (-1)%Z
  | _ => 0%Z
  end.

Definition quarter_sin (q : Z) : Z :=
  match (q mod 4)%Z with
  | 1%Z => 1%Z
  | 3%Z => (-1)%Z
  | _ => 0%Z
  end.

#[export] Instance Z_scalar : Scalar Z := {|
  fzero := 0%Z;
  fadd := Z.add;
  fsub := Z.sub;
  fmul := Z.mul;
  fcos := quarter_cos;
  fsin := quarter_sin;
  to_dtype := fun x => x;
|}.







(** ** The write log of the kernel

    What the kernel does to the output buffer, as the list of its writes.
    The values come from the input buffer and the two tables only; the
    theorems below connect this description to the kernel itself. *)

Section WriteLog.
Context {F : Type} `{!Scalar F}.


Definition lane_writes (off : nat -> nat) (val : nat -> F)
    (msk : nat -> bool) (lanes : list nat) : list (nat * F) :=
  i ← lanes; if msk i then [(off i, val i)] else [].

(** The offsets of the two elements of the pair of lane [k]. *)
Definition off1 (a : kargs) (s h b k : nat) : nat :=
  s * in_seq_len_stride a + b * in_batch_stride a + h * head_dim a + k.
Definition off2 (a : kargs) (s h b k : nat) : nat :=
  s * in_seq_len_stride a + b * in_batch_stride a + h * head_dim a
  + head_dim_mid a + k.
Definition tab_off (n stride s k : nat) : nat := (s mod n) * stride + k.

Definition rd (m : heap F) (p o : nat) : F := default fzero (peek m p o).

Definition x1_at (a : kargs) (m : heap F) (s h b k : nat) : F :=
  rd m (input_ptr a) (off1 a s h b k).
Definition x2_at (a : kargs) (m : heap F) (s h b k : nat) : F :=
  rd m (input_ptr a) (off2 a s h b k).
Definition cos_at (a : kargs) (m : heap F) (s k : nat) : F :=
  rd m (cos_ptr a) (tab_off (seq_len a) (cos_stride a) s k).
Definition sin_at (a : kargs) (m : heap F) (s k : nat) : F :=
  rd m (sin_ptr a) (tab_off (seq_len a) (sin_stride a) s k).

Definition y1_at (a : kargs) (m : heap F) (s h b k : nat) : F :=
  fsub (fmul (x1_at a m s h b k) (cos_at a m s k))
       (fmul (x2_at a m s h b k) (sin_at a m s k)).
Definition y2_at (a : kargs) (m : heap F) (s h b k : nat) : F :=
  fadd (fmul (x1_at a m s h b k) (sin_at a m s k))
       (fmul (x2_at a m s h b k) (cos_at a m s k)).

Definition in_mask (a : kargs) (k : nat) : bool :=
  bool_decide (k < head_dim_mid a).


Definition batch_writes (a : kargs) (m : heap F) (s h b : nat)
  : list (nat * F) :=
  lane_writes (off1 a s h b) (y1_at a m s h b) (in_mask a)
              (head_dim_offset a)
  ++ lane_writes (off2 a s h b) (y2_at a m s h b) (in_mask a)
                 (head_dim_offset a).

Definition unit_writes (a : kargs) (m : heap F) (u : nat * nat * list nat)
  : list (nat * F) :=
  b ← u.2; batch_writes a m u.1.1 u.1.2 b.













(** The table [x] lies in memory, initialised. *)
Definition table_in (m : heap F) (x : Table) : Prop :=
  exists buf, m !! tab_ptr x = Some buf /\ rows x * cols x ≤ length buf /\
    forall o, o < rows x * cols x -> exists v, buf !! o = Some (Some v).


End WriteLog.

(** A computation whose only errors are those of the device side: a
    memory fault or a refusal of the kernel by the compiler. *)
Definition device_only {A : Type} (r : result A) : Prop :=
  forall e, r = Raise e ->
    e = MemoryFault \/ exists msg, e = CompilationError msg.

(** Inputs of [rope]: a tensor of two positions, one batch, one head and
    four features in buffer 0, and a table of angles, in quarter turns, in
    buffer 1. *)
Definition ex_t : Tensor :=
  {| data_ptr := 0; shape := (2, 1, 1, 4); transposed := false |}.
Definition ex_freqs : Table := {| tab_ptr := 1; rows := 2; cols := 2 |}.
Definition ex_rope_heap : heap Z :=
  [ Some <$> [1; 2; 3; 4; 5; 6; 7; 8]%Z; Some <$> [0; 0; 1; 2]%Z ].

(** A head of three features. *)
Definition ex_odd_t : Tensor :=
  {| data_ptr := 0; shape := (1, 1, 1, 3); transposed := false |}.
Definition ex_odd_freqs : Table := {| tab_ptr := 1; rows := 1; cols := 1 |}.
Definition ex_odd_heap : heap Z :=
  [ Some <$> [1; 2; 3]%Z; Some <$> [1]%Z ].


(** ** Vocabulary of the further properties *)


(** The angles of the table either builder returns, when it returns one:
    position times [base ^ (-2k / dim)]. *)
Definition angle_table (dim seq_len : nat) (base : R) : list (list R) :=
  Tables.outer (INR <$> seq 0 seq_len)
    ((fun k => Rpower base (-2 * INR k / INR dim))%R <$> seq 0 (dim / 2)).

(** The product of two complex numbers given as (real, imaginary). *)
Definition cmul (z w : R * R) : R * R :=
  (z.1 * w.1 - z.2 * w.2, z.1 * w.2 + z.2 * w.1)%R.


Section Vocabulary.
Context {F : Type} `{!Scalar F}.



End Vocabulary.





(** A head of one feature, on the memory of [ex_odd_heap]. *)
Definition ex_one_t : Tensor :=
  {| data_ptr := 0; shape := (1, 1, 1, 1); transposed := false |}.

(** * Properties *)

(** ** The error monad *)

Lemma bind_Ok {A B} (f : A -> result B) (a : A) : (Ok a ≫= f) = f a.
Proof. reflexivity. Qed.

Lemma bind_Raise {A B} (f : A -> result B) (e : error) :
  (Raise e ≫= f) = Raise e.
Proof. reflexivity. Qed.


Lemma foldlM_app {A B} (f : B -> A -> result B) (l1 l2 : list A) (b : B) :
  foldlM f (l1 ++ l2) b = (foldlM f l1 b ≫= foldlM f l2).
Proof.
  revert b. induction l1 as [|x l1 IH]; intros b; simpl; [done|].
  destruct (f b x) as [b'|e]; simpl; [apply IH | done].
Qed.

(** ** [tl.arange] *)



Lemma tl_arange_device_only (start stop : nat) :
  device_only (tl_arange start stop).
Proof.
  unfold tl_arange. intros e.
  destruct (stop <=? start); [intros [= <-]; right; by eexists|].
  destruct (negb _); [intros [= <-]; right; by eexists|done].
Qed.

Section KernelFacts.
Context {F : Type} `{!Scalar F}.
Implicit Types (m : heap F) (buf : buffer F) (a : kargs).

(** ** Memory *)

Lemma peek_insert_ne m p q buf o :
  p ≠ q -> peek (<[p := buf]> m) q o = peek m q o.
Proof. intros Hne. unfold peek. by rewrite list_lookup_insert_ne. Qed.







(** ** Masked loads and stores, lane by lane *)





Lemma lane_writes_ext off (val val' : nat -> F) msk lanes :
  (forall i, i ∈ lanes -> msk i = true -> val i = val' i) ->
  lane_writes off val msk lanes = lane_writes off val' msk lanes.
Proof.
  intros Hext. unfold lane_writes. apply Forall_bind_ext, Forall_forall.
  intros i Hi. destruct (msk i) eqn:Hm; [|done]. by rewrite Hext.
Qed.

(** ** The kernel and its write log *)












(** ** Which cells a schedule writes *)







(** ** Distinct elements have distinct offsets *)





(** ** Running a reordered schedule *)








End KernelFacts.

(** ** [next_power_of_2] *)

Section NextPowerOfTwo.
Local Open Scope Z_scope.






End NextPowerOfTwo.

(** ** The kernel: what a launch computes *)

Section KernelTheorems.
Context {F : Type} `{!Scalar F}.
Implicit Types (m : heap F) (buf : buffer F) (a : kargs).




(** The write log of a program instance does not depend on what the
    output buffer holds. *)
Lemma unit_writes_insert a m buf u :
  output_ptr a ≠ input_ptr a -> output_ptr a ≠ cos_ptr a ->
  output_ptr a ≠ sin_ptr a ->
  unit_writes a (<[output_ptr a := buf]> m) u = unit_writes a m u.
Proof.
  intros Hin Hcos Hsin. unfold unit_writes, batch_writes.
  apply Forall_bind_ext, Forall_forall. intros b _. f_equal.
  - apply lane_writes_ext. intros k _ _.
    unfold y1_at, x1_at, x2_at, cos_at, sin_at, rd.
    by rewrite !peek_insert_ne by done.
  - apply lane_writes_ext. intros k _ _.
    unfold y2_at, x1_at, x2_at, cos_at, sin_at, rd.
    by rewrite !peek_insert_ne by done.
Qed.








End KernelTheorems.

(** ** The host function *)

Section HostFacts.
Context {F : Type} `{!Scalar F}.
Implicit Types (m : heap F) (a : kargs) (t : Tensor).

Lemma device_only_bind {A B} (r : result A) (f : A -> result B) :
  device_only r -> (forall x, device_only (f x)) -> device_only (r ≫= f).
Proof.
  intros Hr Hf e. destruct r as [x|e']; simpl.
  - apply Hf.
  - intros [= <-]. by apply Hr.
Qed.

Lemma device_only_Ok {A} (x : A) : device_only (Ok x).
Proof. by intros e. Qed.

Lemma device_only_fault {A} : device_only (@Raise A MemoryFault).
Proof. intros e [= <-]. by left. Qed.

Lemma device_only_foldlM {A B} (f : B -> A -> result B) l b :
  (forall b x, device_only (f b x)) -> device_only (foldlM f l b).
Proof.
  intros Hf. revert b. induction l as [|x l IH]; intros b; simpl.
  - apply device_only_Ok.
  - by apply device_only_bind.
Qed.

Lemma tl_load_faults m p offs msk other :
  device_only (tl_load m p offs msk other).
Proof.
  revert msk. induction offs as [|o offs IH]; intros [|k msk]; simpl;
    try apply device_only_Ok.
  apply device_only_bind.
  - unfold load_lane. destruct k; [|apply device_only_Ok].
    destruct (peek m p o); [apply device_only_Ok|apply device_only_fault].
  - intros v. apply device_only_bind; [apply IH|].
    intros vs. apply device_only_Ok.
Qed.

Lemma poke_faults m p o v : device_only (poke m p o v).
Proof.
  unfold poke. destruct (m !! p); [|apply device_only_fault].
  case_decide; [apply device_only_Ok|apply device_only_fault].
Qed.

Lemma tl_store_faults m p offs vals msk :
  device_only (tl_store m p offs vals msk).
Proof.
  revert m vals msk.
  induction offs as [|o offs IH]; intros m [|v vals] [|k msk]; simpl;
    try apply device_only_Ok.
  apply device_only_bind; [|intros m'; apply IH].
  unfold store_lane. destruct k; [apply poke_faults|apply device_only_Ok].
Qed.

Lemma launch_faults a grid m : device_only (launch a grid m).
Proof.
  unfold launch, compile.
  apply device_only_bind.
  { apply device_only_bind; [apply tl_arange_device_only|].
    intros l. apply device_only_Ok. }
  intros _. apply device_only_foldlM. intros m1 u.
  unfold rope_kernel_fw, rope_kernel_body.
  apply device_only_bind; [apply tl_arange_device_only|]. intros l.
  apply device_only_bind; [apply tl_load_faults|]. intros c.
  apply device_only_bind; [apply tl_load_faults|]. intros sn.
  apply device_only_foldlM. intros m2 b. unfold rope_kernel_batch.
  apply device_only_bind; [apply tl_load_faults|]. intros x1.
  apply device_only_bind; [apply tl_load_faults|]. intros x2.
  apply device_only_bind; [apply tl_store_faults|]. intros m3.
  apply tl_store_faults.
Qed.

Lemma torch_unary_faults f x m : device_only (torch_unary f x m).
Proof.
  unfold torch_unary. destruct (m !! tab_ptr x); [|apply device_only_fault].
  case_decide; [apply device_only_Ok|apply device_only_fault].
Qed.

(** *** The kernel writes to the output buffer only *)







(** *** Layout *)

Lemma transpose01_involutive t : transpose01 (transpose01 t) = t.
Proof.
  destruct t as [p [[[d0 d1] d2] d3] tr]. unfold transpose01. simpl.
  by rewrite negb_involutive.
Qed.

Lemma tensor_get_transpose01 m t i0 i1 i2 i3 :
  tensor_get m (transpose01 t) i1 i0 i2 i3 = tensor_get m t i0 i1 i2 i3.
Proof.
  destruct t as [p [[[d0 d1] d2] d3] [|]];
    unfold tensor_get, transpose01, stride;
    cbn [shape transposed data_ptr negb];
    f_equal; lia.
Qed.

Lemma check_tensor_format_sbhd t : check_tensor_format t "sbhd" = Ok t.
Proof. reflexivity. Qed.

Lemma check_tensor_format_bshd t :
  check_tensor_format t "bshd" = Ok (transpose01 t).
Proof. reflexivity. Qed.

Lemma check_tensor_format_other t fmt :
  fmt ≠ "bshd" -> fmt ≠ "sbhd" ->
  check_tensor_format t fmt
  = Raise (ValueError ("Unsupported tensor_format: " +:+ fmt +:+ ".")).
Proof.
  intros H1 H2. unfold check_tensor_format.
  apply String.eqb_neq in H1, H2. by rewrite H1, H2.
Qed.


End HostFacts.

Section HostTheorems.
Context {F : Type} `{!Scalar F}.
Implicit Types (m : heap F) (a : kargs) (t : Tensor)
  (ctx : gmap string value).


(** The part of [rope] after the check of [tensor_format] raises nothing
    but the errors of the device side, so a [ValueError] can only come
    from the check. *)
Lemma rope_ValueError ctx t freqs fmt cu m msg :
  rope ctx t freqs fmt cu m = Raise (ValueError msg) ->
  check_tensor_format t fmt = Raise (ValueError msg).
Proof.
  unfold rope. destruct (check_tensor_format t fmt) as [t'|e];
    [|rewrite bind_Raise; by intros [= ->]].
  rewrite bind_Ok. destruct (shape t') as [[[d0 d1] d2] d3].
  unfold empty_like. intros Hraise. exfalso.
  revert Hraise.
  match goal with
  | |- ?r = _ -> _ => assert (device_only r) as Hf
  end.
  { apply device_only_bind; [apply torch_unary_faults|]. intros [c m1].
    apply device_only_bind; [apply torch_unary_faults|]. intros [sn m2].
    apply device_only_bind; [apply launch_faults|]. intros m3.
    destruct (String.eqb fmt "bshd"); apply device_only_Ok. }
  intros Hraise. by apply Hf in Hraise as [?|[? ?]].
Qed.

(** C6, as the code has it.  [rope] raises a [ValueError], before it
    allocates or dispatches anything, exactly when [tensor_format] is
    neither ["sbhd"] nor ["bshd"]; the message names the tag. *)
Theorem rope_rejects_unsupported_format ctx t freqs fmt cu m :
  (fmt ≠ "bshd" -> fmt ≠ "sbhd" ->
   rope ctx t freqs fmt cu m
   = Raise (ValueError ("Unsupported tensor_format: " +:+ fmt +:+ "."))) /\
  (forall msg, rope ctx t freqs fmt cu m = Raise (ValueError msg) ->
     fmt ≠ "bshd" /\ fmt ≠ "sbhd").
Proof.
  split.
  - intros H1 H2. unfold rope.
    by rewrite check_tensor_format_other.
  - intros msg Hraise%rope_ValueError.
    split; intros ->; by vm_compute in Hraise.
Qed.


(** C9.  Layout invariance.  [rope] on [transpose01 x] with the tag
    ["bshd"] does what [rope] on [x] with the tag ["sbhd"] does: it fails
    with the same error, or it leaves the same memory and returns the
    transpose of the other result, whose element [(b, s, h, d)] is the
    element [(s, b, h, d)] of the other. *)
Theorem rope_layout_invariant ctx x freqs cu m :
  match rope ctx x freqs "sbhd" cu m with
  | Ok (out, _, m1) =>
      (exists ctx2,
         rope ctx (transpose01 x) freqs "bshd" cu m
         = Ok (transpose01 out, ctx2, m1)) /\
      forall s b h d,
        tensor_get m1 (transpose01 out) b s h d = tensor_get m1 out s b h d
  | Raise e => rope ctx (transpose01 x) freqs "bshd" cu m = Raise e
  end.
Proof.
  unfold rope.
  rewrite check_tensor_format_sbhd, check_tensor_format_bshd, !bind_Ok.
  rewrite transpose01_involutive.
  destruct (shape x) as [[[d0 d1] d2] d3]. unfold empty_like.
  destruct (torch_unary _ _ _) as [[c m1]|e]; [|done]. rewrite !bind_Ok.
  destruct (torch_unary _ _ _) as [[sn m2]|e]; [|done]. rewrite !bind_Ok.
  destruct (launch _ _ _) as [m3|e]; [|done]. rewrite !bind_Ok.
  change (String.eqb "sbhd" "bshd") with false.
  change (String.eqb "bshd" "bshd") with true. cbv iota.
  split; [by eexists|]. intros s b h d. apply tensor_get_transpose01.
Qed.

(** *** [rope] on a tensor and a table that lie in memory *)















End HostTheorems.

(** ** Concrete runs *)

(** Case analysis on a natural number below a literal bound. *)
Ltac below H :=
  match type of H with
  | ?x < _ =>
      repeat (destruct x as [|x]; [|apply <- Nat.succ_lt_mono in H]);
      try (exfalso; lia)
  end.












Lemma rope_rejects_unsupported_format_witness :
  rope ∅ ex_t ex_freqs "abc" None ex_rope_heap
  = Raise (ValueError "Unsupported tensor_format: abc.").
Proof.
  by apply (proj1 (rope_rejects_unsupported_format
                     ∅ ex_t ex_freqs "abc" None ex_rope_heap)).
Defined.

(** C6, the claim as stated, fails: a head of three features is accepted;
    [rope] returns, and the third feature of the output is left
    uninitialised. *)
Lemma rope_accepts_odd_head_dim :
  exists out ctx' m',
    rope ∅ ex_odd_t ex_odd_freqs "sbhd" None ex_odd_heap
    = Ok (out, ctx', m') /\
    shape out = (1, 1, 1, 3) /\
    m' !! data_ptr out = Some [Some (-2)%Z; Some 1%Z; None].
Proof. eexists _, _, _. split; [reflexivity|]. split; reflexivity. Qed.




(** ** The frequency tables *)

Module TableFacts.
Import Tables.
Local Open Scope R_scope.

Lemma arange_unit_length (start stop : nat) :
  length (arange start stop 1) = (stop - start)%nat.
Proof.
  unfold arange. rewrite length_fmap, length_seq, Nat.div_1_r. lia.
Qed.

Lemma arange_unit_lookup (start stop k : nat) :
  (k < stop - start)%nat ->
  arange start stop 1 !! k = Some (start + k)%nat.
Proof.
  intros Hk. unfold arange.
  rewrite list_lookup_fmap, lookup_seq_lt by (rewrite Nat.div_1_r; lia).
  simpl. f_equal. lia.
Qed.

Lemma arange_unit_seq (start stop : nat) :
  arange start stop 1
  = (fun j => (start + j)%nat) <$> seq 0 (stop - start).
Proof.
  unfold arange. rewrite Nat.div_1_r.
  replace (stop - start + 1 - 1)%nat with (stop - start)%nat by lia.
  apply list_fmap_ext. intros _ j _. lia.
Qed.

Lemma arange_even_seq (n : nat) :
  (n mod 2 = 0)%nat ->
  arange 0 n 2 = (fun j => (2 * j)%nat) <$> seq 0 (n / 2).
Proof.
  intros Heven. unfold arange.
  replace ((n - 0 + 2 - 1) / 2)%nat with (n / 2)%nat.
  - apply list_fmap_ext. intros _ j _. lia.
  - pose proof (Nat.div_mod_eq n 2) as Hn. rewrite Heven in Hn.
    replace (n - 0 + 2 - 1)%nat with (1 + (n / 2) * 2)%nat by lia.
    rewrite Nat.div_add by lia. simpl. lia.
Qed.

(** The schedule of [compute_theta]: entry [k] is [base^(-2k/dim)]. *)
Lemma theta_schedule (dim : nat) (base : R) :
  (fun i => Rpower base (-2 * (i - 1) / INR dim))
    <$> (INR <$> arange 1 (dim / 2 + 1) 1)
  = (fun k => Rpower base (-2 * INR k / INR dim)) <$> seq 0 (dim / 2).
Proof.
  rewrite arange_unit_seq, <- !list_fmap_compose.
  replace (dim / 2 + 1 - 1)%nat with (dim / 2)%nat by lia.
  apply list_fmap_ext. intros _ k _. unfold compose. do 3 f_equal.
  change (1 + k)%nat with (S k). rewrite S_INR. lra.
Qed.

Lemma positions (seq_len : nat) :
  INR <$> arange 0 seq_len 1 = INR <$> seq 0 seq_len.
Proof.
  rewrite arange_unit_seq, Nat.sub_0_r, <- list_fmap_compose.
  by apply list_fmap_ext.
Qed.

Lemma outer_lookup (u v : list R) (i j : nat) (x y : R) :
  u !! i = Some x -> v !! j = Some y ->
  outer u v !! i ≫= (.!! j) = Some (x * y).
Proof.
  intros Hu Hv. unfold outer. rewrite list_lookup_fmap, Hu. simpl.
  by rewrite list_lookup_fmap, Hv.
Qed.

Lemma polar_ones_lookup (x : list (list R)) (i j : nat) (a : R) :
  x !! i ≫= (.!! j) = Some a ->
  polar_ones x !! i ≫= (.!! j)
  = Some (Rtrigo_def.cos a, Rtrigo_def.sin a).
Proof.
  unfold polar_ones. rewrite list_lookup_fmap.
  destruct (x !! i) as [row|]; [|done]. simpl.
  rewrite list_lookup_fmap. intros ->. simpl. unfold polar.
  by rewrite !Rmult_1_l.
Qed.

Lemma compute_theta_value (dim : nat) (base : R) :
  (compute_theta dim base).2
  = Ok ((fun k => Rpower base (-2 * INR k / INR dim)) <$> seq 0 (dim / 2)).
Proof. unfold compute_theta. simpl. by rewrite theta_schedule. Qed.

Lemma precompute_freqs_cis_value (dim seq_len : nat) (base : R) :
  (precompute_freqs_cis dim seq_len base).2
  = Ok (polar_ones
          (outer (INR <$> seq 0 seq_len)
                 ((fun k => Rpower base (-2 * INR k / INR dim))
                    <$> seq 0 (dim / 2)))).
Proof.
  unfold precompute_freqs_cis, compute_theta. simpl.
  by rewrite theta_schedule, positions.
Qed.

(** The entries of the table of [precompute_freqs_cis]: the angle of
    position [m] and pair index [k] is [m * base^(-2k/dim)]. *)
Lemma freqs_cis_entry (dim seq_len : nat) (base : R) (m k : nat) :
  (m < seq_len)%nat -> (k < dim / 2)%nat ->
  exists m_theta,
    (precompute_freqs_cis dim seq_len base).2 = Ok (polar_ones m_theta) /\
    m_theta !! m ≫= (.!! k)
    = Some (INR m * Rpower base (-2 * INR k / INR dim)) /\
    polar_ones m_theta !! m ≫= (.!! k)
    = Some (Rtrigo_def.cos (INR m * Rpower base (-2 * INR k / INR dim)),
            Rtrigo_def.sin (INR m * Rpower base (-2 * INR k / INR dim))).
Proof.
  intros Hm Hk. eexists. split; [apply precompute_freqs_cis_value|].
  assert (outer (INR <$> seq 0 seq_len)
            ((fun k => Rpower base (-2 * INR k / INR dim))
               <$> seq 0 (dim / 2)) !! m ≫= (.!! k)
          = Some (INR m * Rpower base (-2 * INR k / INR dim))) as Hangle.
  { apply outer_lookup.
    - by rewrite list_lookup_fmap, lookup_seq_lt.
    - by rewrite list_lookup_fmap, lookup_seq_lt. }
  split; [done|]. by apply polar_ones_lookup.
Qed.

(** C2.  The table of [precompute_freqs_cis].  For every [dim],
    [seq_len] and [base], position [m < seq_len] and pair index
    [k < dim/2]: entry [k] of [compute_theta] is [base^(-2k/dim)], the
    angle of the table at [(m, k)] is [m * base^(-2k/dim)], and the table
    holds its cosine and its sine.  For [dim = 4], [seq_len = 2],
    [base = 10000]: [compute_theta] prints nothing, the row of position 0
    has cosine 1 and sine 0 at both pair indices, and the angle at
    [(1, 0)] is 1. *)
Theorem freqs_cis_table :
  (forall (dim seq_len : nat) (base : R) (m k : nat),
     (m < seq_len)%nat -> (k < dim / 2)%nat ->
     exists theta m_theta,
       (compute_theta dim base).2 = Ok theta /\
       theta !! k = Some (Rpower base (-2 * INR k / INR dim)) /\
       (precompute_freqs_cis dim seq_len base).2 = Ok (polar_ones m_theta) /\
       m_theta !! m ≫= (.!! k)
       = Some (INR m * Rpower base (-2 * INR k / INR dim)) /\
       polar_ones m_theta !! m ≫= (.!! k)
       = Some (Rtrigo_def.cos (INR m * Rpower base (-2 * INR k / INR dim)),
               Rtrigo_def.sin (INR m * Rpower base (-2 * INR k / INR dim))))
  /\
  (exists m_theta,
     precompute_freqs_cis 4 2 10000 = ([], Ok (polar_ones m_theta)) /\
     polar_ones m_theta !! 0%nat = Some [(1, 0); (1, 0)] /\
     m_theta !! 1%nat ≫= (.!! 0%nat) = Some 1).
Proof.
  split.
  - intros dim seq_len base m k Hm Hk.
    destruct (freqs_cis_entry dim seq_len base m k Hm Hk)
      as (m_theta & Htab & Hangle & Hentry).
    eexists _, m_theta. split; [apply compute_theta_value|].
    split; [|done]. by rewrite list_lookup_fmap, lookup_seq_lt.
  - exists (outer (INR <$> seq 0 2)
              (((fun k => Rpower 10000 (-2 * INR k / INR 4)))
                 <$> seq 0 (4 / 2))).
    split.
    { rewrite (surjective_pairing (precompute_freqs_cis 4 2 10000)).
      by rewrite precompute_freqs_cis_value. }
    split.
    + simpl. unfold polar. rewrite !Rmult_0_l, cos_0, sin_0, !Rmult_1_l.
      reflexivity.
    + simpl. f_equal. rewrite Rmult_1_l.
      replace (-2 * 0 / (1 + 1 + 1 + 1)) with 0 by lra.
      apply Rpower_O. lra.
Qed.

Lemma freqs_cis_table_witness :
  exists m_theta,
    (precompute_freqs_cis 6 3 10000).2 = Ok (polar_ones m_theta) /\
    m_theta !! 2%nat ≫= (.!! 1%nat)
    = Some (INR 2 * Rpower 10000 (-2 * INR 1 / INR 6)).
Proof.
  destruct (proj1 freqs_cis_table 6%nat 3%nat 10000 2%nat 1%nat)
    as (theta & m_theta & _ & _ & Htab & Hangle & _).
  - lia.
  - change (6 / 2)%nat with 3%nat. lia.
  - by exists m_theta.
Defined.

Lemma odd_test (dim : nat) :
  (dim mod 2 = 1)%nat -> negb (dim mod 2 =? 0)%nat = true.
Proof. by intros ->. Qed.

Lemma even_test (dim : nat) :
  (dim mod 2 = 0)%nat -> negb (dim mod 2 =? 0)%nat = false.
Proof. by intros ->. Qed.

(** C5, on the code.  For an odd [dim], [compute_theta] prints its
    message and returns a schedule of [dim/2] entries, and
    [precompute_freqs_cis] returns a table with it; neither fails.  Only
    [precompute_theta_pos_frequencies] refuses an odd [head_dim], by an
    assertion. *)
Theorem odd_dim_not_rejected (dim seq_len : nat) (base : R) :
  (dim mod 2 = 1)%nat ->
  (exists theta,
     compute_theta dim base = (["嵌入维度 dim 必须为偶数"], Ok theta) /\
     length theta = (dim / 2)%nat) /\
  (exists freqs_cis,
     precompute_freqs_cis dim seq_len base
     = (["嵌入维度 dim 必须为偶数"], Ok freqs_cis) /\
     length freqs_cis = seq_len) /\
  precompute_theta_pos_frequencies dim seq_len base
  = Raise (AssertionError "Dimension must be divisible by 2").
Proof.
  intros Hodd. split; [|split].
  - eexists. unfold compute_theta. rewrite (odd_test dim Hodd).
    split; [reflexivity|].
    rewrite !length_fmap, arange_unit_length. lia.
  - eexists. unfold precompute_freqs_cis, compute_theta.
    rewrite (odd_test dim Hodd). split; [reflexivity|].
    unfold polar_ones, outer.
    rewrite !length_fmap, arange_unit_length. lia.
  - unfold precompute_theta_pos_frequencies. by rewrite (odd_test dim Hodd).
Qed.

Lemma odd_dim_not_rejected_witness :
  exists theta,
    compute_theta 3 10000 = (["嵌入维度 dim 必须为偶数"], Ok theta) /\
    length theta = 1%nat.
Proof. by apply (odd_dim_not_rejected 3 2 10000). Defined.

Lemma theta_schedules_agree (dim : nat) (base : R) :
  (dim mod 2 = 0)%nat ->
  (fun n => 1 / Rpower base (n / INR dim)) <$> (INR <$> arange 0 dim 2)
  = (fun k => Rpower base (-2 * INR k / INR dim)) <$> seq 0 (dim / 2).
Proof.
  intros Heven. rewrite arange_even_seq, <- !list_fmap_compose by done.
  apply list_fmap_ext. intros _ k _. unfold compose.
  rewrite mult_INR. change (INR 2) with 2.
  replace (-2 * INR k / INR dim) with (- (2 * INR k / INR dim))
    by (unfold Rdiv; ring).
  rewrite Rpower_Ropp. unfold Rdiv. by rewrite Rmult_1_l.
Qed.

Lemma polar_ones_unit (x : list (list R)) (row : list (R * R)) (z : R * R) :
  row ∈ polar_ones x -> z ∈ row -> z.1 * z.1 + z.2 * z.2 = 1.
Proof.
  unfold polar_ones. intros (r & -> & _)%list_elem_of_fmap.
  intros (a & -> & _)%list_elem_of_fmap. unfold polar. simpl.
  rewrite !Rmult_1_l. pose proof (sin2_cos2 a) as H.
  unfold Rsqr in H. lra.
Qed.

(** C8.  The two helpers agree.  In exact arithmetic, for every even
    [dim], every [seq_len] and every [base],
    [precompute_theta_pos_frequencies] and [precompute_freqs_cis] return
    the same table: [seq_len] rows of [dim/2] complex numbers of
    magnitude one. *)
Theorem frequency_helpers_agree (dim seq_len : nat) (base : R) :
  (dim mod 2 = 0)%nat ->
  precompute_theta_pos_frequencies dim seq_len base
  = (precompute_freqs_cis dim seq_len base).2 /\
  exists table,
    precompute_theta_pos_frequencies dim seq_len base = Ok table /\
    length table = seq_len /\
    forall row, row ∈ table ->
      length row = (dim / 2)%nat /\
      forall z, z ∈ row -> z.1 * z.1 + z.2 * z.2 = 1.
Proof.
  intros Heven.
  assert (precompute_theta_pos_frequencies dim seq_len base
          = Ok (polar_ones
                  (outer (INR <$> seq 0 seq_len)
                     ((fun k => Rpower base (-2 * INR k / INR dim))
                        <$> seq 0 (dim / 2))))) as Hpos.
  { unfold precompute_theta_pos_frequencies.
    by rewrite (even_test dim Heven), theta_schedules_agree, positions. }
  split; [by rewrite Hpos, precompute_freqs_cis_value|].
  eexists. split; [exact Hpos|]. split.
  - unfold polar_ones, outer. by rewrite !length_fmap, length_seq.
  - intros row Hrow. split; [|intros z; by eapply polar_ones_unit].
    unfold polar_ones, outer in Hrow.
    apply list_elem_of_fmap in Hrow as (r & -> & Hr).
    apply list_elem_of_fmap in Hr as (x & -> & _).
    by rewrite !length_fmap, length_seq.
Qed.

Lemma frequency_helpers_agree_witness :
  precompute_theta_pos_frequencies 4 2 10000
  = (precompute_freqs_cis 4 2 10000).2.
Proof. by apply (frequency_helpers_agree 4 2 10000). Defined.

End TableFacts.

(** * Further properties *)

(** ** The frequency tables: schedule, rows and truncation *)

Module TableLaws.
Import Tables TableFacts.
Local Open Scope R_scope.

Lemma Rpower_pos (x y : R) : 0 < Rpower x y.
Proof. unfold Rpower. apply exp_pos. Qed.

Lemma theta_exponent_step (dim k : nat) :
  (0 < dim)%nat ->
  -2 * INR (S k) / INR dim = -2 * INR k / INR dim + -2 / INR dim.
Proof.
  intros Hdim. rewrite S_INR.
  assert (INR dim <> 0) by (apply not_0_INR; lia). by field.
Qed.

(** X1.  The schedule of [compute_theta] is geometric.  For a positive
    [base] and [dim >= 2]: the first entry is 1, every entry is positive,
    entry [k+1] is entry [k] times [base^(-2/dim)], and for a [base] above
    1 the entries decrease strictly, so that all lie in (0, 1]. *)
Theorem compute_theta_geometric (dim : nat) (base : R) :
  0 < base -> (2 <= dim)%nat ->
  exists theta,
    (compute_theta dim base).2 = Ok theta /\
    length theta = (dim / 2)%nat /\
    theta !! 0%nat = Some 1 /\
    (forall k x, theta !! k = Some x -> 0 < x) /\
    (forall k x y, theta !! k = Some x -> theta !! S k = Some y ->
       y = x * Rpower base (-2 / INR dim)) /\
    (1 < base ->
     forall k x y, theta !! k = Some x -> theta !! S k = Some y -> y < x) /\
    (1 < base -> forall k x, theta !! k = Some x -> x <= 1).
Proof.
  intros Hbase Hdim.
  assert (1 <= dim / 2)%nat as Hhalf.
  { change 1%nat with (2 / 2)%nat. by apply Nat.Div0.div_le_mono. }
  assert (forall k x,
            ((fun k => Rpower base (-2 * INR k / INR dim))
               <$> seq 0 (dim / 2)) !! k = Some x ->
            (k < dim / 2)%nat /\ x = Rpower base (-2 * INR k / INR dim))
    as Hentry.
  { intros k x Hk. rewrite list_lookup_fmap in Hk.
    destruct (seq 0 (dim / 2) !! k) as [k'|] eqn:Hseq; [|done].
    apply lookup_seq in Hseq as [-> ?]. by injection Hk as <-. }
  assert (INR dim <> 0) as Hnz by (apply not_0_INR; lia).
  assert (0 < INR dim) as Hpos by (apply lt_0_INR; lia).
  eexists. split; [apply compute_theta_value|].
  split; [by rewrite length_fmap, length_seq|].
  split; [|split; [|split; [|split]]].
  - rewrite list_lookup_fmap, lookup_seq_lt by lia. simpl. f_equal.
    replace (-2 * 0 / INR dim) with 0 by (by field).
    by apply Rpower_O.
  - intros k x (_ & ->)%Hentry. apply Rpower_pos.
  - intros k x y (_ & ->)%Hentry (_ & ->)%Hentry.
    rewrite theta_exponent_step by lia. apply Rpower_plus.
  - intros Hbig k x y (_ & ->)%Hentry (_ & ->)%Hentry.
    apply Rpower_lt; [done|]. rewrite theta_exponent_step by lia.
    assert (0 < 2 / INR dim) by (apply Rdiv_lt_0_compat; lra).
    replace (-2 / INR dim) with (- (2 / INR dim)) by (by field). lra.
  - intros Hbig k x (_ & ->)%Hentry.
    destruct k as [|k].
    + replace (-2 * INR 0 / INR dim) with 0 by (simpl; by field).
      rewrite Rpower_O by done. lra.
    + left. rewrite <- (Rpower_O base) by done.
      apply Rpower_lt; [done|].
      assert (0 < INR (S k)) by (apply lt_0_INR; lia).
      assert (0 < 2 * INR (S k) / INR dim)
        by (apply Rdiv_lt_0_compat; [lra|done]).
      replace (-2 * INR (S k) / INR dim) with (- (2 * INR (S k) / INR dim))
        by (by field).
      lra.
Qed.

Lemma compute_theta_geometric_witness :
  exists theta,
    (compute_theta 4 10000).2 = Ok theta /\ theta !! 0%nat = Some 1.
Proof.
  destruct (compute_theta_geometric 4 10000) as (theta & Hv & _ & H0 & _).
  - lra.
  - lia.
  - by exists theta.
Defined.

Lemma builder_table (dim seq_len : nat) (base : R) table :
  (precompute_freqs_cis dim seq_len base).2 = Ok table \/
  precompute_theta_pos_frequencies dim seq_len base = Ok table ->
  table = polar_ones (angle_table dim seq_len base).
Proof.
  intros [Hrun|Hrun].
  - rewrite precompute_freqs_cis_value in Hrun. by injection Hrun as <-.
  - unfold precompute_theta_pos_frequencies in Hrun.
    destruct (Nat.eq_dec (dim mod 2) 0%nat) as [Heven|Hodd].
    + rewrite (even_test dim Heven), theta_schedules_agree, positions in Hrun
        by done.
      by injection Hrun as <-.
    + assert (dim mod 2 = 1)%nat as Hodd'
        by (pose proof (Nat.mod_upper_bound dim 2); lia).
      by rewrite (odd_test dim Hodd') in Hrun.
Qed.

Lemma angle_table_lookup (dim seq_len : nat) (base : R) (m k : nat) :
  (m < seq_len)%nat -> (k < dim / 2)%nat ->
  angle_table dim seq_len base !! m ≫= (.!! k)
  = Some (INR m * Rpower base (-2 * INR k / INR dim)).
Proof.
  intros Hm Hk. unfold angle_table. apply outer_lookup.
  - by rewrite list_lookup_fmap, lookup_seq_lt.
  - by rewrite list_lookup_fmap, lookup_seq_lt.
Qed.

Lemma table_entry (dim seq_len : nat) (base : R) table (m k : nat) :
  (precompute_freqs_cis dim seq_len base).2 = Ok table \/
  precompute_theta_pos_frequencies dim seq_len base = Ok table ->
  (m < seq_len)%nat -> (k < dim / 2)%nat ->
  table !! m ≫= (.!! k)
  = Some (Rtrigo_def.cos (INR m * Rpower base (-2 * INR k / INR dim)),
          Rtrigo_def.sin (INR m * Rpower base (-2 * INR k / INR dim))).
Proof.
  intros ->%builder_table Hm Hk.
  by apply polar_ones_lookup, angle_table_lookup.
Qed.

(** X2.  Position 0 is the identity rotation.  In the table of either
    builder, whatever [dim], [base] and the number of rows, every entry of
    the row of position 0 is the complex number 1: cosine 1, sine 0. *)
Theorem position_zero_row (dim seq_len : nat) (base : R) table (k : nat) :
  (precompute_freqs_cis dim seq_len base).2 = Ok table \/
  precompute_theta_pos_frequencies dim seq_len base = Ok table ->
  (0 < seq_len)%nat -> (k < dim / 2)%nat ->
  table !! 0%nat ≫= (.!! k) = Some (1, 0).
Proof.
  intros Hrun Hlen Hk.
  rewrite (table_entry dim seq_len base table 0 k) by done.
  simpl. by rewrite Rmult_0_l, cos_0, sin_0.
Qed.

Lemma position_zero_row_witness :
  exists table,
    precompute_theta_pos_frequencies 6 2 10000 = Ok table /\
    table !! 0%nat ≫= (.!! 2%nat) = Some (1, 0).
Proof.
  destruct (precompute_theta_pos_frequencies 6 2 10000) as [table|e] eqn:Hrun;
    [|discriminate Hrun].
  exists table. split; [done|].
  apply (position_zero_row 6 2 10000); [by right|lia|].
  change (6 / 2)%nat with 3%nat. lia.
Defined.

(** X3.  Positions add up as rotations multiply.  In the table of either
    builder the entry of position [m + n] is the complex product of the
    entries of positions [m] and [n], at every pair index: the rotation of
    a position is the composition of the rotations of its parts. *)
Theorem positions_compose (dim seq_len : nat) (base : R) table (m n k : nat) :
  (precompute_freqs_cis dim seq_len base).2 = Ok table \/
  precompute_theta_pos_frequencies dim seq_len base = Ok table ->
  (m + n < seq_len)%nat -> (k < dim / 2)%nat ->
  exists zm zn,
    table !! m ≫= (.!! k) = Some zm /\
    table !! n ≫= (.!! k) = Some zn /\
    table !! (m + n)%nat ≫= (.!! k) = Some (cmul zm zn).
Proof.
  intros Hrun Hlen Hk. eexists _, _.
  rewrite !(table_entry dim seq_len base table _ k Hrun) by lia.
  split; [done|]. split; [done|]. f_equal. unfold cmul. simpl.
  rewrite plus_INR, Rmult_plus_distr_r, cos_plus, sin_plus.
  f_equal; lra.
Qed.

Lemma positions_compose_witness :
  exists table zm zn,
    (precompute_freqs_cis 4 8 10000).2 = Ok table /\
    table !! 2%nat ≫= (.!! 1%nat) = Some zm /\
    table !! 3%nat ≫= (.!! 1%nat) = Some zn /\
    table !! 5%nat ≫= (.!! 1%nat) = Some (cmul zm zn).
Proof.
  destruct ((precompute_freqs_cis 4 8 10000).2) as [table|e] eqn:Hrun;
    [|by rewrite precompute_freqs_cis_value in Hrun].
  destruct (positions_compose 4 8 10000 table 2 3 1) as (zm & zn & H);
    [by left|lia|change (4 / 2)%nat with 2%nat; lia|].
  by exists table, zm, zn.
Defined.

(** X4.  A table can be truncated instead of recomputed.  The table of
    either builder for [n] positions is the first [n] rows of its table for
    any larger number of positions, which is what [rope] relies on when it
    takes [freqs[:seq_len]]. *)
Theorem table_truncates (dim n n' : nat) (base : R) table :
  (n <= n')%nat ->
  (precompute_freqs_cis dim n' base).2 = Ok table \/
  precompute_theta_pos_frequencies dim n' base = Ok table ->
  (precompute_freqs_cis dim n base).2 = Ok (take n table) /\
  ((dim mod 2 = 0)%nat ->
   precompute_theta_pos_frequencies dim n base = Ok (take n table)).
Proof.
  intros Hn ->%builder_table.
  assert (polar_ones (angle_table dim n base)
          = take n (polar_ones (angle_table dim n' base))) as Htake.
  { unfold polar_ones, angle_table, outer.
    rewrite <- !fmap_take, take_seq. by rewrite Nat.min_l. }
  split.
  - by rewrite precompute_freqs_cis_value, <- Htake.
  - intros Heven. unfold precompute_theta_pos_frequencies.
    by rewrite (even_test dim Heven), theta_schedules_agree, positions,
      <- Htake.
Qed.

Lemma table_truncates_witness :
  exists table,
    (precompute_freqs_cis 4 8 10000).2 = Ok table /\
    (precompute_freqs_cis 4 3 10000).2 = Ok (take 3 table).
Proof.
  destruct ((precompute_freqs_cis 4 8 10000).2) as [table|e] eqn:Hrun;
    [|by rewrite precompute_freqs_cis_value in Hrun].
  exists table. split; [done|].
  apply (table_truncates 4 3 8 10000 table); [lia|by left].
Defined.

End TableLaws.

(** ** The kernel: what a launch leaves alone, and the block width *)

Section KernelLaws.
Context {F : Type} `{!Scalar F}.
Implicit Types (m : heap F) (buf : buffer F) (a : kargs).
















End KernelLaws.




(** ** The host function on both layouts *)

(** Projections of records built on the spot. *)
Ltac record_fields :=
  cbn [input_ptr in_seq_len_stride in_batch_stride output_ptr cos_ptr sin_ptr
       cos_stride sin_stride seq_len head_dim BLOCK_SIZE BATCH_NUM
       data_ptr shape transposed tab_ptr rows cols fst snd].

Section RopeLaws.
Context {F : Type} `{!Scalar F}.
Implicit Types (m : heap F) (a : kargs) (t : Tensor)
  (ctx : gmap string value).

(** The batch-major call is the sequence-major call on the transposed
    view, its result transposed back. *)
Lemma rope_bshd ctx t freqs cu m :
  rope ctx t freqs "bshd" cu m
  = r ← rope ctx (transpose01 t) freqs "sbhd" cu m;
    Ok (transpose01 r.1.1, <["tensor_format" := VStr "bshd"]> r.1.2, r.2).
Proof.
  unfold rope.
  rewrite check_tensor_format_sbhd, check_tensor_format_bshd, !bind_Ok.
  destruct (shape (transpose01 t)) as [[[d0 d1] d2] d3]. unfold empty_like.
  destruct (torch_unary _ _ _) as [[c m1]|e]; [|done]. rewrite !bind_Ok.
  destruct (torch_unary _ _ _) as [[sn m2]|e]; [|done]. rewrite !bind_Ok.
  destruct (launch _ _ _) as [m3|e]; [|done]. rewrite !bind_Ok.
  change (String.eqb "sbhd" "bshd") with false.
  change (String.eqb "bshd" "bshd") with true. cbv iota.
  rewrite bind_Ok. cbn [fst snd]. by rewrite insert_insert_eq.
Qed.



Lemma shape_transpose01 t d0 d1 d2 d3 :
  shape t = (d0, d1, d2, d3) -> shape (transpose01 t) = (d1, d0, d2, d3).
Proof. intros Hshape. unfold transpose01. by rewrite Hshape. Qed.


















(** *** Heads of fewer than two features *)

Lemma small_block (d : nat) :
  d < 2 -> Z.to_nat (next_power_of_2 (Z.of_nat (d / 2))) = 0.
Proof. intros Hd. by rewrite Nat.div_small by done. Qed.

Lemma rope_sbhd_small_head_dim ctx t freqs cu m d0 d1 d2 d3 :
  shape t = (d0, d1, d2, d3) -> d3 < 2 -> table_in m freqs ->
  exists msg, rope ctx t freqs "sbhd" cu m = Raise (CompilationError msg).
Proof.
  intros Hshape Hdim (fbuf & Hfbuf & Hflen & _).
  assert (tab_ptr freqs < length m) as Hfptr by (by eapply lookup_lt_Some).
  assert ((rows freqs `min` d0) * cols freqs ≤ length fbuf) as Hlen.
  { etrans; [|exact Hflen]. apply Nat.mul_le_mono_r. lia. }
  unfold rope. rewrite check_tensor_format_sbhd, bind_Ok, Hshape.
  unfold empty_like, torch_unary, slice_rows. record_fields.
  rewrite lookup_app_l, Hfbuf, decide_True, bind_Ok by done. cbv beta iota.
  rewrite lookup_app_l by (rewrite length_app; lia).
  rewrite lookup_app_l, Hfbuf, decide_True, bind_Ok by done. cbv beta iota.
  unfold launch, compile. record_fields. rewrite small_block by done.
  by eexists.
Qed.

(** X16.  Heads of fewer than two features are refused by the compiler,
    not by [rope].  [rope] does not look at [head_dim]: for a tensor with
    a position, a batch and a head whose [head_dim] is 0 or 1, and a table
    that lies in memory, [BLOCK_SIZE] is 0, the range of the kernel is
    empty, and the call ends with the compiler's error, with either tag
    and whatever the memory holds. *)
Theorem rope_small_head_dim_rejected ctx t freqs fmt cu m d0 d1 d2 d3 :
  shape t = (d0, d1, d2, d3) -> 0 < d0 -> 0 < d1 -> 0 < d2 -> d3 < 2 ->
  fmt = "sbhd" \/ fmt = "bshd" -> table_in m freqs ->
  exists msg, rope ctx t freqs fmt cu m = Raise (CompilationError msg).
Proof.
  intros Hshape _ _ _ Hdim [-> | ->] Hfreqs.
  - by apply (rope_sbhd_small_head_dim ctx t freqs cu m d0 d1 d2 d3).
  - destruct (rope_sbhd_small_head_dim ctx (transpose01 t) freqs cu m
                d1 d0 d2 d3) as [msg Hrun]; [by apply shape_transpose01|done..|].
    exists msg. by rewrite rope_bshd, Hrun.
Qed.

End RopeLaws.

(** Runs of [rope] on the examples. *)








Lemma ex_odd_table_in : table_in ex_odd_heap ex_odd_freqs.
Proof.
  eexists. split; [reflexivity|]. split; [simpl; lia|].
  intros o Ho. change (rows ex_odd_freqs * cols ex_odd_freqs) with 1 in Ho.
  below Ho; vm_compute; eauto.
Qed.

Lemma rope_small_head_dim_rejected_witness :
  exists msg,
    rope ∅ ex_one_t ex_odd_freqs "sbhd" None ex_odd_heap
    = Raise (CompilationError msg).
Proof.
  apply (rope_small_head_dim_rejected ∅ ex_one_t ex_odd_freqs "sbhd" None
           ex_odd_heap 1 1 1 1 eq_refl); [lia..|by left|].
  exact ex_odd_table_in.
Defined.


(** ** [rope] in exact arithmetic: a rotation *)

Section RealLaws.
Implicit Types (m : heap R) (t : Tensor) (ctx : gmap string value).




End RealLaws.






